(** * memoApp: the memo list, its search filter and its store handlers

    A shallow embedding of [src/memo-app/src/App.jsx]: the React component
    [App] (state, handlers, derived list [filteredMemos]) and the submit
    handler of [MemoModal].

    - A JavaScript string is its sequence of UTF-16 code units, a [list N].
      [trim] and [includes] work on code units and are defined here, with
      the white space of ECMAScript. [String.prototype.toLowerCase] works
      on whole strings with the case tables of the engine: the functions
      that call it take it as the parameter [toLowerCase], and what is
      proved of them holds for every such function. For runs on sample
      texts, [toLowerCase_latin_greek] is that conversion on Basic Latin
      and the Greek letters.
    - The Supabase client imported from [./supabaseClient] is not part of
      the component: it is a parameter, the record [World], which also
      answers [window.confirm] and [new Date().toISOString()].
    - A handler is a computation in the monad [M]: it reads the [World],
      threads the component state [AppState] and writes the [Event]s it
      causes (requests, dialogs, console output), in order. *)

From Stdlib Require Import ZArith NArith Ascii String List Bool Lia.
From stdpp Require Import base option list gmap.

Local Open Scope string_scope.
Local Open Scope bool_scope.
Local Open Scope list_scope.

(** ** JavaScript strings *)

Module JsString.

(** The text of a literal of Basic Latin characters, one code unit each. *)
Definition js (s : string) : list N :=
  List.map N_of_ascii (list_ascii_of_string s).

(** [WhiteSpace] and [LineTerminator] of ECMAScript, which
    [String.prototype.trim] strips: TAB, LF, VT, FF, CR, SPACE, NO-BREAK
    SPACE, the other space separators U+1680, U+2000..U+200A, U+202F,
    U+205F and U+3000, the separators U+2028 and U+2029, and U+FEFF. *)
Definition isWhiteSpace (u : N) : bool :=
  ((9 <=? u) && (u <=? 13) || (u =? 0x20) || (u =? 0xA0) || (u =? 0x1680)
   || (0x2000 <=? u) && (u <=? 0x200A) || (u =? 0x2028) || (u =? 0x2029)
   || (u =? 0x202F) || (u =? 0x205F) || (u =? 0x3000) || (u =? 0xFEFF))%N.

Fixpoint trimStart (s : list N) : list N :=
  match s with
  | [] => []
  | u :: s' => if isWhiteSpace u then trimStart s' else s
  end.

Fixpoint trimEnd (s : list N) : list N :=
  match s with
  | [] => []
  | u :: s' =>
      match trimEnd s' with
      | [] => if isWhiteSpace u then [] else [u]
      | t => u :: t
      end
  end.

(** [s.trim()] *)
Definition trim (s : list N) : list N := trimEnd (trimStart s).

(** Truthiness of a string value: only the empty string is falsy. *)
Definition truthy (s : list N) : bool :=
  match s with
  | [] => false
  | _ :: _ => true
  end.

(** [s.startsWith(p)] *)
Fixpoint startsWith (s p : list N) {struct p} : bool :=
  match p, s with
  | [], _ => true
  | _ :: _, [] => false
  | b :: p', a :: s' => N.eqb a b && startsWith s' p'
  end.

(** [s.includes(sub)]: [sub] occurs in [s] at some position. *)
Fixpoint includes (s sub : list N) : bool :=
  startsWith s sub
  || match s with
     | [] => false
     | _ :: s' => includes s' sub
     end.

(** *** [toLowerCase] on Basic Latin and the Greek letters

    The conversion of ECMAScript (the lower-case mapping of the Unicode
    character database with the [Final_Sigma] rule of its special casing)
    for strings over U+0000..U+007F, the Greek capitals U+0391..U+03A9 and
    the Greek small letters U+03B1..U+03C9. Other code units are outside
    this table and are left as they are. *)

(** The cased letters of that repertoire. *)
Definition is_cased (u : N) : bool :=
  ((0x41 <=? u) && (u <=? 0x5A) || (0x61 <=? u) && (u <=? 0x7A)
   || (0x391 <=? u) && (u <=? 0x3A9) && negb (u =? 0x3A2)
   || (0x3B1 <=? u) && (u <=? 0x3C9))%N.

(** Its case-ignorable characters: apostrophe, full stop, colon,
    circumflex accent and grave accent. *)
Definition is_case_ignorable (u : N) : bool :=
  ((u =? 0x27) || (u =? 0x2E) || (u =? 0x3A) || (u =? 0x5E) || (u =? 0x60))%N.

(** The lower-case mapping of one character that does not depend on its
    neighbours. *)
Definition simple_lower (u : N) : N :=
  if ((0x41 <=? u) && (u <=? 0x5A)
      || (0x391 <=? u) && (u <=? 0x3A9) && negb (u =? 0x3A2))%N
  then (u + 32)%N
  else u.

(** Going away from a sigma, the first character that is not
    case-ignorable is a cased letter. *)
Fixpoint cased_next (s : list N) : bool :=
  match s with
  | [] => false
  | u :: s' => if is_case_ignorable u then cased_next s' else is_cased u
  end.

(** [before] holds the units already passed, the nearest first. A capital
    sigma U+03A3 becomes the final sigma U+03C2 when a cased letter comes
    before it and none after it, and the sigma U+03C3 otherwise. *)
Fixpoint lower_from (before s : list N) : list N :=
  match s with
  | [] => []
  | u :: rest =>
      (if (u =? 0x3A3)%N
       then if cased_next before && negb (cased_next rest) then 0x3C2%N else 0x3C3%N
       else simple_lower u)
      :: lower_from (u :: before) rest
  end.

Definition toLowerCase_latin_greek (s : list N) : list N := lower_from [] s.

End JsString.

Import JsString.

(** ** Data model *)

(** The [id] column of a row: a number or a string, compared with [===]. *)
Inductive Ident : Type :=
| IdNum (n : Z)
| IdStr (s : string).

(** [a === b] on identifiers: no coercion between numbers and strings. *)
Definition strict_eq (a b : Ident) : bool :=
  match a, b with
  | IdNum x, IdNum y => Z.eqb x y
  | IdStr x, IdStr y => String.eqb x y
  | _, _ => false
  end.

(** A row of the [memos] table, as the client receives it. The time stamps
    are kept as the store sends them. *)
Module Memo.
Record t : Type := mk {
  id : Ident;
  title : list N;
  content : list N;
  created_at : string;
  updated_at : option string;
}.
End Memo.
Abbreviation Memo := Memo.t.

(** ** The search filter *)

(** The callback of [memos.filter] in [filteredMemos]. *)
Definition search_hit (toLowerCase : list N → list N) (lower : list N)
    (m : Memo) : bool :=
  includes (toLowerCase (Memo.title m)) lower
  || includes (toLowerCase (Memo.content m)) lower.

(** [filteredMemos], the body of the [useMemo] callback. *)
Definition filteredMemos (toLowerCase : list N → list N) (memos : list Memo)
    (search : list N) : list Memo :=
  if negb (truthy (trim search)) then memos
  else
    let lower := toLowerCase search in
    List.filter (search_hit toLowerCase lower) memos.

(** *** The same function on array references

    An array is an object: [memos] holds a reference, and [Array.prototype.filter]
    allocates the array it returns. The heap maps references to array
    contents. *)
Module Arrays.

Abbreviation ref := positive (only parsing).
Abbreviation heap := (gmap positive (list Memo)) (only parsing).

(** [a.filter(p)] for a callback [p] without side effects. *)
Definition array_filter (p : Memo → bool) (h : heap) (a : ref)
  : option (heap * ref) :=
  match h !! a with
  | None => None
  | Some xs =>
      let r := fresh (dom h) in
      Some (<[r := List.filter p xs]> h, r)
  end.

Definition filteredMemos (toLowerCase : list N → list N) (h : heap)
    (memos : ref) (search : list N) : option (heap * ref) :=
  if negb (truthy (trim search)) then Some (h, memos)
  else
    let lower := toLowerCase search in
    array_filter (search_hit toLowerCase lower) h memos.

End Arrays.

(** ** The component and its environment *)

(** The [error] object of a failed query. *)
Record PostgrestError : Type := mkError {
  message : string;
  code : string;
}.

(** The [{ data, error }] object a query resolves to: either [error] is
    [null] and [data] is the payload, or [error] is set. *)
Inductive Response (A : Type) : Type :=
| Success (data : A)
| Failure (error : PostgrestError).
Arguments Success {A} data.
Arguments Failure {A} error.

(** The two dialogs of the component: the [window.confirm] of
    [handleDeleteMemo] and the [alert] of [MemoModal.handleSubmit]. *)
Inductive Dialog : Type :=
| ConfirmDelete
| TitleRequired.

(** The requests the component sends to the [memos] table. *)
Inductive Query : Type :=
| SelectAll
| Insert (title content : list N)
| Update (id : Ident) (title content : list N) (updated_at : string)
| Delete (id : Ident).

(** What the environment answers. The payload of [select] may be [null]
    ([None]), which [fetchMemos] reads as the empty array. *)
Record World : Type := mkWorld {
  select_all : Response (option (list Memo));
  insert_row : list N → list N → Response Memo;
  update_row : Ident → list N → list N → string → Response Memo;
  delete_row : Ident → Response unit;
  confirm_answer : Dialog → bool;
  now_iso : string;
}.

(** The [useState] cells of [App]. *)
Record AppState : Type := mkApp {
  memos : list Memo;
  loading : bool;
  search : list N;
  isModalOpen : bool;
  editingMemo : option Memo;
}.

(** What a handler does that is visible outside the component state. *)
Inductive Event : Type :=
| Requested (q : Query)
| Asked (d : Dialog) (answer : bool)
| Alerted (d : Dialog)
| Logged (label : string) (error : PostgrestError).

(** The monad of handlers. *)
Definition M (A : Type) : Type :=
  World → AppState → A * AppState * list Event.

#[export] Instance M_ret : MRet M := λ A a _ s, (a, s, []).

#[export] Instance M_bind : MBind M := λ A B f m w s,
  let '(a, s1, t1) := m w s in
  let '(b, s2, t2) := f a w s1 in
  (b, s2, t1 ++ t2).

Definition final_state {A} (r : A * AppState * list Event) : AppState := r.1.2.
Definition trace {A} (r : A * AppState * list Event) : list Event := r.2.

(** *** Primitive effects *)

Definition supabase_select : M (Response (option (list Memo))) :=
  λ w s, (select_all w, s, [Requested SelectAll]).

Definition supabase_insert (title content : list N) : M (Response Memo) :=
  λ w s, (insert_row w title content, s, [Requested (Insert title content)]).

Definition supabase_update (id : Ident) (title content : list N)
    (updated_at : string)
  : M (Response Memo) :=
  λ w s, (update_row w id title content updated_at, s,
          [Requested (Update id title content updated_at)]).

Definition supabase_delete (id : Ident) : M (Response unit) :=
  λ w s, (delete_row w id, s, [Requested (Delete id)]).

Definition window_confirm (d : Dialog) : M bool :=
  λ w s, (confirm_answer w d, s, [Asked d (confirm_answer w d)]).

Definition alert (d : Dialog) : M unit :=
  λ _ s, (tt, s, [Alerted d]).

Definition console_error (label : string) (error : PostgrestError) : M unit :=
  λ _ s, (tt, s, [Logged label error]).

(** [new Date().toISOString()] *)
Definition date_toISOString : M string :=
  λ w s, (now_iso w, s, []).

Definition modify (f : AppState → AppState) : M unit :=
  λ _ s, (tt, f s, []).

(** [setMemos(f)] with an updater function, and with a value. *)
Definition setMemosWith (f : list Memo → list Memo) : M unit :=
  modify (λ s, mkApp (f (memos s)) (loading s) (search s) (isModalOpen s)
                 (editingMemo s)).

Definition setMemos (v : list Memo) : M unit := setMemosWith (λ _, v).

Definition setLoading (b : bool) : M unit :=
  modify (λ s, mkApp (memos s) b (search s) (isModalOpen s) (editingMemo s)).

Definition setSearch (v : list N) : M unit :=
  modify (λ s, mkApp (memos s) (loading s) v (isModalOpen s) (editingMemo s)).

Definition setIsModalOpen (b : bool) : M unit :=
  modify (λ s, mkApp (memos s) (loading s) (search s) b (editingMemo s)).

Definition setEditingMemo (v : option Memo) : M unit :=
  modify (λ s, mkApp (memos s) (loading s) (search s) (isModalOpen s) v).

(** The value of [editingMemo] a closure of the current render sees. *)
Definition read_editingMemo : M (option Memo) :=
  λ _ s, (editingMemo s, s, []).

(** *** Handlers of [App] *)

Definition fetchMemos : M unit :=
  setLoading true;;
  r ← supabase_select;
  match r with
  | Failure error => console_error "fetchMemos error" error
  | Success data => setMemos (default [] data)
  end;;
  setLoading false.

Definition handleCreateMemo (title content : list N) : M unit :=
  r ← supabase_insert title content;
  match r with
  | Failure error => console_error "createMemo error" error
  | Success data => setMemosWith (λ prev, data :: prev)
  end.

Definition handleUpdateMemo (id : Ident) (title content : list N) : M unit :=
  now ← date_toISOString;
  r ← supabase_update id title content now;
  match r with
  | Failure error => console_error "updateMemo error" error
  | Success data =>
      setMemosWith
        (λ prev, List.map (λ m, if strict_eq (Memo.id m) id then data else m) prev)
  end.

Definition handleDeleteMemo (id : Ident) : M unit :=
  ok ← window_confirm ConfirmDelete;
  if negb ok then mret tt
  else
    r ← supabase_delete id;
    match r with
    | Failure error => console_error "deleteMemo error" error
    | Success _ =>
        setMemosWith
          (λ prev, List.filter (λ m, negb (strict_eq (Memo.id m) id)) prev)
    end.

Definition openNewMemoModal : M unit :=
  setEditingMemo None;; setIsModalOpen true.

Definition openEditMemoModal (memo : Memo) : M unit :=
  setEditingMemo (Some memo);; setIsModalOpen true.

Definition closeModal : M unit := setIsModalOpen false.

(** The [onSubmit] prop that [App] hands to [MemoModal]. *)
Definition onSubmit (title content : list N) : M unit :=
  editing ← read_editingMemo;
  match editing with
  | Some m => handleUpdateMemo (Memo.id m) title content
  | None => handleCreateMemo title content
  end;;
  closeModal.

(** *** [MemoModal] *)

(** The two [useState] cells of the modal form. *)
Record ModalState : Type := mkModal {
  form_title : list N;
  form_content : list N;
}.

(** Initial form: [initialMemo?.title ?? ''] and [initialMemo?.content ?? '']. *)
Definition MemoModal_init (initialMemo : option Memo) : ModalState :=
  match initialMemo with
  | Some m => mkModal (Memo.title m) (Memo.content m)
  | None => mkModal [] []
  end.

(** [handleSubmit] of the form, given the [onSubmit] prop. The call
    [e.preventDefault()], which only stops the browser from submitting the
    form itself, is left out. *)
Definition handleSubmit (form : ModalState)
    (onSubmit : list N → list N → M unit) : M unit :=
  if negb (truthy (trim (form_title form))) then alert TitleRequired
  else onSubmit (trim (form_title form)) (trim (form_content form)).

(** Pressing the save button of the modal that [App] renders. *)
Definition submit (form : ModalState) : M unit := handleSubmit form onSubmit.

(** ** What the search filter computes *)

(** A string is blank when it is empty or made of white space only. *)
Definition blank (s : list N) : Prop :=
  ∀ u, In u s → isWhiteSpace u = true.

(** [text] contains [sub]: the code units of [sub] occur in [text], in a
    row. *)
Definition contains (text sub : list N) : Prop :=
  ∃ pre post, text = pre ++ sub ++ post.

(** The title or the content of the memo, in lower case, contains the
    search text in lower case. *)
Definition lowered_hit (toLowerCase : list N → list N) (s : list N)
    (m : Memo) : Prop :=
  contains (toLowerCase (Memo.title m)) (toLowerCase s)
  ∨ contains (toLowerCase (Memo.content m)) (toLowerCase s).

(** [selected P l r]: [r] is [l] with exactly the elements satisfying [P]
    kept, each occurrence once, in the order of [l]. *)
Inductive selected {A} (P : A → Prop) : list A → list A → Prop :=
| selected_nil : selected P [] []
| selected_keep x l r : P x → selected P l r → selected P (x :: l) (x :: r)
| selected_drop x l r : ¬ P x → selected P l r → selected P (x :: l) r.

(** [text] contains [s] up to letter case, for a relation [same] that
    tells which two code units are the same letter: a run of [text] agrees
    with [s] unit by unit up to [same]. *)
Definition contains_up_to (same : N → N → Prop) (text s : list N) : Prop :=
  ∃ pre mid post, text = pre ++ mid ++ post ∧ Forall2 same mid s.

(** The filter returns exactly the memos whose title or content contains
    the search text up to letter case. *)
Definition filter_is_containment_up_to (toLowerCase : list N → list N)
    (same : N → N → Prop) : Prop :=
  ∀ L s m,
    ¬ blank s →
    (m ∈ filteredMemos toLowerCase L s
     ↔ m ∈ L ∧ (contains_up_to same (Memo.title m) s
                ∨ contains_up_to same (Memo.content m) s)).

(** The filter returns every memo whose title contains the search text
    letter for letter. Containing it up to letter case asks no more than
    this of such a memo, whatever two letters are taken to be the same up
    to case. *)
Definition filter_keeps_literal_matches (toLowerCase : list N → list N) : Prop :=
  ∀ L s m,
    ¬ blank s → m ∈ L → contains (Memo.title m) s →
    m ∈ filteredMemos toLowerCase L s.

(** Sample rows. *)
Definition memoA : Memo :=
  Memo.mk (IdNum 1) (js "Trip plan") (js "Book the hotel") "2024-05-02" None.
Definition memoB : Memo :=
  Memo.mk (IdNum 2) (js "Recipe") (js "Milk, eggs") "2024-05-01" None.

(** The Greek word for street in capitals, omicron delta omicron sigma, and
    the capital sigma alone. *)
Definition odos : list N := [0x39F; 0x394; 0x39F; 0x3A3]%N.
Definition capital_sigma : list N := [0x3A3]%N.
Definition memoStreet : Memo := Memo.mk (IdNum 4) odos [] "2024-05-05" None.

(** ** What the handlers are meant to maintain *)

(** The identifiers of a list of memos, in order. *)
Definition ids (l : list Memo) : list Ident := List.map Memo.id l.

(** At most one entry per [id]. *)
Definition distinct_ids (l : list Memo) : Prop := NoDup (ids l).

(** The title a request carries, for the requests that carry one. *)
Definition query_title (q : Query) : option (list N) :=
  match q with
  | Insert title _ => Some title
  | Update _ title _ _ => Some title
  | SelectAll | Delete _ => None
  end.

(** The request that a valid submission of [form] sends is answered by an
    error: the update of the memo being edited, or the insert of a new one. *)
Definition submit_call_fails (w : World) (s : AppState) (form : ModalState) : Prop :=
  match editingMemo s with
  | Some m =>
      ∃ e, update_row w (Memo.id m) (trim (form_title form))
             (trim (form_content form)) (now_iso w) = Failure e
  | None =>
      ∃ e, insert_row w (trim (form_title form)) (trim (form_content form))
           = Failure e
  end.

(** The edit session stays open when the call of a submission fails. *)
Definition edit_session_survives_failure : Prop :=
  ∀ w s form,
    isModalOpen s = true →
    ¬ blank (form_title form) →
    submit_call_fails w s form →
    isModalOpen (final_state (submit form w s)) = true.

(** Sample environments: a store that answers every request, the same with
    a user who declines the confirmation, and a store that is unreachable. *)
Definition memoC : Memo :=
  Memo.mk (IdNum 3) (js "Groceries") (js "Milk, eggs") "2024-05-03" None.

Definition offline : PostgrestError := mkError "Failed to fetch" "".

Definition world_up : World :=
  mkWorld (Success (Some [memoA; memoB]))
    (λ title content, Success (Memo.mk (IdNum 3) title content "2024-05-03" None))
    (λ id title content updated_at,
       Success (Memo.mk id title content "2024-05-01" (Some updated_at)))
    (λ _, Success tt)
    (λ _, true)
    "2024-05-03T09:00:00.000Z".

Definition world_declined : World :=
  mkWorld (select_all world_up) (insert_row world_up) (update_row world_up)
    (delete_row world_up) (λ _, false) (now_iso world_up).

Definition world_down : World :=
  mkWorld (Failure offline) (λ _ _, Failure offline)
    (λ _ _ _ _, Failure offline) (λ _, Failure offline)
    (λ _, true) "2024-05-03T09:00:00.000Z".

(** The list [[A; B]] on screen, no modal; the same with the modal open on
    a new memo, and open on [B]; and with the modal closed again after an
    edit of [B]. *)
Definition state_AB : AppState := mkApp [memoA; memoB] false [] false None.
Definition state_new : AppState := mkApp [memoA; memoB] false [] true None.
Definition state_edit : AppState := mkApp [memoA; memoB] false [] true (Some memoB).
Definition state_edited : AppState := mkApp [memoA; memoB] false [] false (Some memoB).

(** The same list with the text "recipe" in the search input. *)
Definition state_search : AppState :=
  mkApp [memoA; memoB] false (js "recipe") false None.

(** Unfolds the monad and the primitive effects of a handler applied to an
    environment and a state. *)
Ltac run_handler :=
  unfold mbind, M_bind, mret, M_ret,
    supabase_select, supabase_insert, supabase_update, supabase_delete,
    window_confirm, alert, console_error, date_toISOString, read_editingMemo,
    setMemos, setMemosWith, setLoading, setIsModalOpen, setEditingMemo, modify;
  cbn.

(** ** What [App] renders, and the actions it wires *)

(** The initial values of the [useState] cells of [App]. *)
Definition initial_state : AppState := mkApp [] true [] false None.

(** The effect run on mount: [useEffect(() => { fetchMemos(); }, [])]. *)
Definition on_mount : M unit := fetchMemos.

(** The three alternatives of the [main] element. *)
Inductive MainContent : Type :=
| LoadingNotice
| EmptyNotice
| MemoGrid (cards : list Memo).

(** [loading ? ... : filteredMemos.length === 0 ? ... : <div className="memo-grid">...] *)
Definition main_content (toLowerCase : list N → list N) (s : AppState)
  : MainContent :=
  if loading s then LoadingNotice
  else if Nat.eqb (length (filteredMemos toLowerCase (memos s) (search s))) 0
  then EmptyNotice
  else MemoGrid (filteredMemos toLowerCase (memos s) (search s)).

(** The [onEdit] and [onDelete] props of the card of [memo]. *)
Definition card_onEdit (memo : Memo) : M unit := openEditMemoModal memo.
Definition card_onDelete (memo : Memo) : M unit := handleDeleteMemo (Memo.id memo).

(** The form that [MemoModal] starts with when a step mounts it.
    [App] renders [isModalOpen && <MemoModal initialMemo={editingMemo} ... />]
    without a key, and the two [useState] cells of the modal read
    [initialMemo] when the modal is mounted and not after: a step mounts
    the modal when [isModalOpen] was false before it and is true after it,
    and a step taken with the modal open leaves the form as it is. *)
Definition form_at_mount (before after : AppState) : option ModalState :=
  if negb (isModalOpen before) && isModalOpen after
  then Some (MemoModal_init (editingMemo after))
  else None.

(** The [onChange] handlers of the two fields of the form. *)
Definition setTitle (v : list N) (form : ModalState) : ModalState :=
  mkModal v (form_content form).
Definition setContent (v : list N) (form : ModalState) : ModalState :=
  mkModal (form_title form) v.

(** The user actions the rendered tree reacts to, with the handler each one
    is wired to: the mount effect, the [onChange] of the search input, the
    new-memo button, the edit and delete buttons of a card, the [onClose] of
    the modal (backdrop, close and cancel buttons) and the [onSubmit] of its
    form. *)
Inductive Action : Type :=
| Mount
| TypeSearch (v : list N)
| ClickNewMemo
| ClickEdit (memo : Memo)
| ClickDelete (memo : Memo)
| CloseModal
| SubmitForm (form : ModalState).

Definition perform (a : Action) : M unit :=
  match a with
  | Mount => on_mount
  | TypeSearch v => setSearch v
  | ClickNewMemo => openNewMemoModal
  | ClickEdit memo => card_onEdit memo
  | ClickDelete memo => card_onDelete memo
  | CloseModal => closeModal
  | SubmitForm form => submit form
  end.

(** ** Observations on traces and strings *)

(** The requests of a trace, in order. *)
Fixpoint requests_of (t : list Event) : list Query :=
  match t with
  | [] => []
  | Requested q :: t' => q :: requests_of t'
  | _ :: t' => requests_of t'
  end.

(** The errors written to the console, in order. *)
Fixpoint logs_of (t : list Event) : list (string * PostgrestError) :=
  match t with
  | [] => []
  | Logged label e :: t' => (label, e) :: logs_of t'
  | _ :: t' => logs_of t'
  end.

(** The dialogs shown to the user, in order. *)
Fixpoint dialogs_of (t : list Event) : list Dialog :=
  match t with
  | [] => []
  | Asked d _ :: t' => d :: dialogs_of t'
  | Alerted d :: t' => d :: dialogs_of t'
  | _ :: t' => dialogs_of t'
  end.

(** [t] is [s] without the white space around it: [s] is [t] between two
    blank strings, and [t] neither starts nor ends with white space. *)
Definition stripped (s t : list N) : Prop :=
  (∃ pre post, blank pre ∧ blank post ∧ s = pre ++ t ++ post)
  ∧ (∀ u rest, t = u :: rest → isWhiteSpace u = false)
  ∧ (∀ u init, t = init ++ [u] → isWhiteSpace u = false).

(** The content a request carries, for the requests that carry one. *)
Definition query_content (q : Query) : option (list N) :=
  match q with
  | Insert _ content => Some content
  | Update _ _ content _ => Some content
  | SelectAll | Delete _ => None
  end.

(** Closes the goals about the events of a trace that is a literal list. *)
Ltac trace_goals :=
  cbn; repeat split;
  try (cbn; lia);
  try (let H := fresh "H" in
       intros H;
       first
         [ now elim H
         | reflexivity
         | solve [eauto 6]
         | repeat (apply elem_of_cons in H as [H | H]; [discriminate |]);
           now apply elem_of_nil in H ]).

(** ** Strings: trimming and substrings *)

Section StringFacts.

Implicit Types (s t p sub text : list N) (u : N).

Lemma blank_empty : blank [].
Proof. intros u []. Qed.

Lemma blank_cons u s : blank (u :: s) ↔ isWhiteSpace u = true ∧ blank s.
Proof.
  unfold blank; simpl; split.
  - intros H; split; [apply H; now left | intros d Hd; apply H; now right].
  - intros [Hu Hs] d [<- | Hd]; auto.
Qed.

(** Blankness is decided by running over the units. *)
Lemma blank_forallb s : blank s ↔ forallb isWhiteSpace s = true.
Proof.
  induction s as [| u s IH]; simpl.
  - split; [reflexivity | intros _; apply blank_empty].
  - now rewrite blank_cons, andb_true_iff, IH.
Qed.

Lemma trimStart_blank s : blank (trimStart s) ↔ blank s.
Proof.
  induction s as [| u s IH]; simpl; [tauto |].
  destruct (isWhiteSpace u) eqn:Hu.
  - rewrite IH, blank_cons. tauto.
  - tauto.
Qed.

Lemma trimEnd_empty s : trimEnd s = [] ↔ blank s.
Proof.
  induction s as [| u s IH]; simpl.
  - split; [intros _; apply blank_empty | reflexivity].
  - rewrite blank_cons, <- IH.
    destruct (trimEnd s); destruct (isWhiteSpace u); split;
      try tauto; try discriminate; intros [? ?]; discriminate.
Qed.

(** [!s.trim()] holds exactly for the blank strings. *)
Lemma trim_falsy s : negb (truthy (trim s)) = true ↔ blank s.
Proof.
  unfold trim. rewrite <- trimStart_blank, <- trimEnd_empty.
  destruct (trimEnd (trimStart s)); simpl; split;
    try reflexivity; try discriminate.
Qed.

Lemma startsWith_spec s p : startsWith s p = true ↔ ∃ post, s = p ++ post.
Proof.
  revert s; induction p as [| b p IH]; intros s; simpl.
  - split; [intros _; now exists s | reflexivity].
  - destruct s as [| a s]; [split; [discriminate | intros [? ?]; discriminate] |].
    rewrite andb_true_iff, N.eqb_eq, IH. split.
    + intros [-> [post ->]]. now exists post.
    + intros [post [= -> ->]]. split; [reflexivity | now exists post].
Qed.

Lemma includes_spec s sub : includes s sub = true ↔ contains s sub.
Proof.
  unfold contains.
  induction s as [| a s IH]; simpl; rewrite orb_true_iff, startsWith_spec.
  - split.
    + intros [[post H] | H]; [now exists [], post | discriminate].
    + intros [pre [post H]]. left.
      destruct pre; [now exists post | discriminate].
  - rewrite IH. split.
    + intros [[post H] | [pre [post H]]].
      * now exists [], post.
      * exists (a :: pre), post. simpl. now rewrite H.
    + intros [[| c pre] [post H]].
      * left. now exists post.
      * right. injection H as -> ->. now exists pre, post.
Qed.

(** The test of the filter callback, for every lower-case conversion. *)
Lemma search_hit_spec toLowerCase s m :
  search_hit toLowerCase (toLowerCase s) m = true ↔ lowered_hit toLowerCase s m.
Proof.
  unfold search_hit, lowered_hit.
  now rewrite orb_true_iff, !includes_spec.
Qed.

(** Where the conversion of the text and of the search text is the same
    mapping [f] of each unit, the test is containment up to [f]: a run of
    the text agrees with the search text unit by unit after [f]. *)
Lemma contains_lowered_unitwise toLowerCase (f : N → N) text s :
  toLowerCase text = List.map f text →
  toLowerCase s = List.map f s →
  contains (toLowerCase text) (toLowerCase s)
  ↔ ∃ pre mid post, text = pre ++ mid ++ post ∧ List.map f mid = List.map f s.
Proof.
  intros -> ->. unfold contains. split.
  - intros (a & c & H).
    apply List.map_eq_app in H as (pre & rest & -> & _ & H).
    apply List.map_eq_app in H as (mid & post & -> & Hmid & _).
    now exists pre, mid, post.
  - intros (pre & mid & post & -> & H).
    exists (List.map f pre), (List.map f post).
    now rewrite !List.map_app, H.
Qed.

End StringFacts.

(** The conversion on samples: a capital sigma at the end of a word and one
    standing alone. *)
Example lower_trip :
  toLowerCase_latin_greek (js "Trip plan") = js "trip plan".
Proof. reflexivity. Qed.

Example lower_odos :
  toLowerCase_latin_greek odos = [0x3BF; 0x3B4; 0x3BF; 0x3C2]%N.
Proof. reflexivity. Qed.

Example lower_capital_sigma :
  toLowerCase_latin_greek capital_sigma = [0x3C3]%N.
Proof. reflexivity. Qed.

(** ** The search filter *)

Section Selection.

Context {A : Type}.
Implicit Types (P : A → Prop) (p : A → bool) (l r : list A).

(** [List.filter] keeps exactly the elements its test accepts. *)
Lemma filter_selected P p l :
  (∀ x, p x = true ↔ P x) → selected P l (List.filter p l).
Proof.
  intros Hp. induction l as [| x l IH]; simpl; [constructor |].
  destruct (p x) eqn:Hx.
  - apply selected_keep; [now apply Hp | exact IH].
  - apply selected_drop; [| exact IH].
    intros HP. apply Hp in HP. congruence.
Qed.

(** [selected] determines its result. *)
Lemma selected_unique P l r r' : selected P l r → selected P l r' → r = r'.
Proof.
  intros H; revert r'.
  induction H as [| x l r Hx _ IH | x l r Hx _ IH]; intros r' H';
    inversion H'; subst; try tauto; auto.
  f_equal; auto.
Qed.

Lemma selected_sublist P l r : selected P l r → sublist r l.
Proof. induction 1; constructor; auto. Qed.

(** Each occurrence is kept or dropped by [P] alone. *)
Lemma selected_elem_of P l r x : selected P l r → x ∈ r ↔ x ∈ l ∧ P x.
Proof.
  induction 1 as [| y l r Hy _ IH | y l r Hy _ IH].
  - rewrite elem_of_nil. tauto.
  - rewrite !elem_of_cons, IH. split; [| tauto].
    intros [-> | [? ?]]; auto.
  - rewrite elem_of_cons, IH. split; [tauto |].
    intros [[-> | ?] ?]; tauto.
Qed.

End Selection.

Lemma filteredMemos_blank toLowerCase L s :
  blank s → filteredMemos toLowerCase L s = L.
Proof.
  intros H. unfold filteredMemos.
  apply trim_falsy in H. now rewrite H.
Qed.

Lemma filteredMemos_search toLowerCase L s :
  ¬ blank s →
  filteredMemos toLowerCase L s
  = List.filter (search_hit toLowerCase (toLowerCase s)) L.
Proof.
  intros H. unfold filteredMemos.
  destruct (negb (truthy (trim s))) eqn:E; [| reflexivity].
  apply trim_falsy in E. contradiction.
Qed.

(** On references: the result holds the filtered contents, and every array
    that was in the heap is still there with the same contents. *)
Lemma filteredMemos_on_heap toLowerCase (h : gmap positive (list Memo)) a L s :
  h !! a = Some L →
  ∃ h' r,
    Arrays.filteredMemos toLowerCase h a s = Some (h', r)
    ∧ h' !! r = Some (filteredMemos toLowerCase L s)
    ∧ (blank s → r = a ∧ h' = h)
    ∧ ∀ b xs, h !! b = Some xs → h' !! b = Some xs.
Proof.
  intros Ha. unfold Arrays.filteredMemos, filteredMemos.
  destruct (negb (truthy (trim s))) eqn:E.
  - exists h, a. auto.
  - unfold Arrays.array_filter. rewrite Ha.
    assert (Hfresh : h !! fresh (dom h) = None)
      by (apply not_elem_of_dom, is_fresh).
    eexists _, _. split; [reflexivity |].
    split; [apply lookup_insert_eq |].
    split.
    + intros Hb. apply trim_falsy in Hb. congruence.
    + intros b xs Hb. rewrite lookup_insert_ne; [exact Hb |].
      intros <-. congruence.
Qed.

(** C1, amended. For every list of memos [L] and every search text [s],
    whatever the lower-case conversion of the engine: when [s] is blank
    (empty, or white space only) the filter returns [L] itself; otherwise
    it returns exactly the elements of [L] whose title or content,
    converted to lower case, contains [s] converted to lower case, in the
    order of [L]. On array references: for a blank [s] the very reference
    of [L] is returned and the heap is untouched, and in every case all
    arrays of the heap, [L] among them, keep their contents. *)
Theorem filteredMemos_spec (toLowerCase : list N → list N) (L : list Memo)
    (s : list N) :
  (blank s → filteredMemos toLowerCase L s = L)
  ∧ (¬ blank s →
     selected (lowered_hit toLowerCase s) L (filteredMemos toLowerCase L s))
  ∧ (∀ (h : gmap positive (list Memo)) (a : positive),
       h !! a = Some L →
       ∃ h' r,
         Arrays.filteredMemos toLowerCase h a s = Some (h', r)
         ∧ h' !! r = Some (filteredMemos toLowerCase L s)
         ∧ (blank s → r = a ∧ h' = h)
         ∧ ∀ b xs, h !! b = Some xs → h' !! b = Some xs).
Proof.
  split; [apply filteredMemos_blank |].
  split; [| intros h a; apply filteredMemos_on_heap].
  intros Hs. rewrite (filteredMemos_search _ _ _ Hs).
  apply filter_selected. intros m. apply search_hit_spec.
Qed.

Lemma blank_two_spaces : blank (js "  ").
Proof. now apply blank_forallb. Qed.

Lemma not_blank_trip : ¬ blank (js "trip").
Proof. intros H. apply blank_forallb in H. discriminate H. Qed.

(** Scenario: [[A; B]] searched for "trip" is [[A]]; searched for two
    spaces it is [[A; B]]. *)
Lemma filteredMemos_spec_witness :
  filteredMemos toLowerCase_latin_greek [memoA; memoB] (js "  ") = [memoA; memoB]
  ∧ selected (lowered_hit toLowerCase_latin_greek (js "trip"))
      [memoA; memoB] [memoA].
Proof.
  split.
  - exact (proj1 (filteredMemos_spec toLowerCase_latin_greek [memoA; memoB] (js "  "))
             blank_two_spaces).
  - exact (proj1 (proj2 (filteredMemos_spec toLowerCase_latin_greek [memoA; memoB]
                           (js "trip"))) not_blank_trip).
Defined.

(** Whatever code units count as the same letter, a unit being the same
    letter as itself: a filter that returned the memos containing the search
    text up to letter case would return those containing it letter for
    letter. *)
Lemma up_to_case_keeps_literal toLowerCase (same : N → N → Prop) :
  (∀ u, same u u) →
  filter_is_containment_up_to toLowerCase same →
  filter_keeps_literal_matches toLowerCase.
Proof.
  intros Hrefl Hclaim L s m Hnb Hin (pre & post & Ht).
  apply Hclaim; [exact Hnb |]. split; [exact Hin |].
  left. exists pre, s, post. split; [exact Ht |].
  clear -Hrefl. induction s; constructor; auto.
Qed.

(** The memo titled with the Greek word in capitals, searched for a capital
    sigma: the title in lower case ends with the final sigma U+03C2, the
    search text in lower case is the sigma U+03C3, and the filter returns
    nothing. *)
Example street_search_run :
  filteredMemos toLowerCase_latin_greek [memoStreet] capital_sigma = [].
Proof. reflexivity. Qed.

(** C1, as stated, fails: the title of that memo contains the search text
    letter for letter, and the memo is not returned. *)
Lemma final_sigma_title_dropped :
  ¬ filter_keeps_literal_matches toLowerCase_latin_greek.
Proof.
  intros H.
  assert (Hin : memoStreet ∈ filteredMemos toLowerCase_latin_greek [memoStreet]
                               capital_sigma).
  { apply H.
    - intros Hb. apply blank_forallb in Hb. discriminate Hb.
    - apply list_elem_of_here.
    - exists [0x39F; 0x394; 0x39F]%N, []. reflexivity. }
  rewrite street_search_run in Hin. now apply elem_of_nil in Hin.
Qed.

(** ** The handlers *)

Lemma strict_eq_spec a b : strict_eq a b = true ↔ a = b.
Proof.
  destruct a as [x | x], b as [y | y]; simpl.
  - rewrite Z.eqb_eq. split; congruence.
  - split; [discriminate | congruence].
  - split; [discriminate | congruence].
  - rewrite String.eqb_eq. split; congruence.
Qed.

Lemma strict_eq_false a b : strict_eq a b = false ↔ a ≠ b.
Proof. rewrite <- strict_eq_spec. destruct (strict_eq a b); split; congruence. Qed.

(** Scenarios of the specification, run on the sample environments. *)
Example scenario_create :
  memos (final_state (submit (mkModal (js "Groceries") (js "Milk, eggs")) world_up
                        (mkApp [] false [] true None))) = [memoC].
Proof. reflexivity. Qed.

Example scenario_update :
  memos (final_state (submit (mkModal (js "Recipe v2") (js " ... ")) world_up state_edit))
  = [memoA;
     Memo.mk (IdNum 2) (js "Recipe v2") (js "...") "2024-05-01" (Some "2024-05-03T09:00:00.000Z")].
Proof. reflexivity. Qed.

Example scenario_delete :
  memos (final_state (handleDeleteMemo (IdNum 1) world_up state_AB)) = [memoB].
Proof. reflexivity. Qed.

Example scenario_delete_declined :
  handleDeleteMemo (IdNum 1) world_declined state_AB
  = (tt, state_AB, [Asked ConfirmDelete false]).
Proof. reflexivity. Qed.

Example scenario_empty_title :
  submit (mkModal (js "") (js "content")) world_up state_new
  = (tt, state_new, [Alerted TitleRequired]).
Proof. reflexivity. Qed.

Example scenario_load :
  fetchMemos world_up (mkApp [] true [] false None)
  = (tt, state_AB, [Requested SelectAll]).
Proof. reflexivity. Qed.

(** Each handler as a case analysis on the answer it receives. *)
Lemma fetchMemos_run w s :
  fetchMemos w s =
  match select_all w with
  | Failure e =>
      (tt, mkApp (memos s) false (search s) (isModalOpen s) (editingMemo s),
       [Requested SelectAll; Logged "fetchMemos error" e])
  | Success data =>
      (tt, mkApp (default [] data) false (search s) (isModalOpen s) (editingMemo s),
       [Requested SelectAll])
  end.
Proof. unfold fetchMemos. run_handler. destruct (select_all w); reflexivity. Qed.

Lemma handleCreateMemo_run title content w s :
  handleCreateMemo title content w s =
  match insert_row w title content with
  | Failure e =>
      (tt, s, [Requested (Insert title content); Logged "createMemo error" e])
  | Success data =>
      (tt, mkApp (data :: memos s) (loading s) (search s) (isModalOpen s)
             (editingMemo s),
       [Requested (Insert title content)])
  end.
Proof.
  unfold handleCreateMemo. run_handler.
  destruct (insert_row w title content); reflexivity.
Qed.

Lemma handleUpdateMemo_run id title content w s :
  handleUpdateMemo id title content w s =
  match update_row w id title content (now_iso w) with
  | Failure e =>
      (tt, s, [Requested (Update id title content (now_iso w));
               Logged "updateMemo error" e])
  | Success data =>
      (tt, mkApp
             (List.map (λ m, if strict_eq (Memo.id m) id then data else m) (memos s))
             (loading s) (search s) (isModalOpen s) (editingMemo s),
       [Requested (Update id title content (now_iso w))])
  end.
Proof.
  unfold handleUpdateMemo. run_handler.
  destruct (update_row w id title content (now_iso w)); reflexivity.
Qed.

Lemma handleDeleteMemo_run id w s :
  handleDeleteMemo id w s =
  if confirm_answer w ConfirmDelete then
    match delete_row w id with
    | Failure e =>
        (tt, s, [Asked ConfirmDelete true; Requested (Delete id);
                 Logged "deleteMemo error" e])
    | Success _ =>
        (tt, mkApp
               (List.filter (λ m, negb (strict_eq (Memo.id m) id)) (memos s))
               (loading s) (search s) (isModalOpen s) (editingMemo s),
         [Asked ConfirmDelete true; Requested (Delete id)])
    end
  else (tt, s, [Asked ConfirmDelete false]).
Proof.
  unfold handleDeleteMemo. run_handler.
  destruct (confirm_answer w ConfirmDelete); cbn; [| reflexivity].
  destruct (delete_row w id); reflexivity.
Qed.

Lemma onSubmit_run title content w s :
  onSubmit title content w s =
  let r :=
    match editingMemo s with
    | Some m => handleUpdateMemo (Memo.id m) title content w s
    | None => handleCreateMemo title content w s
    end in
  (tt,
   mkApp (memos (final_state r)) (loading (final_state r))
     (search (final_state r)) false (editingMemo (final_state r)),
   trace r).
Proof.
  unfold onSubmit, closeModal, mbind, M_bind, read_editingMemo, setIsModalOpen, modify.
  cbn.
  destruct (editingMemo s) as [m |];
    [destruct (handleUpdateMemo (Memo.id m) title content w s) as [[[] s1] t1]
    | destruct (handleCreateMemo title content w s) as [[[] s1] t1]];
    cbn; now rewrite app_nil_r.
Qed.

Lemma submit_blank form w s :
  blank (form_title form) → submit form w s = (tt, s, [Alerted TitleRequired]).
Proof.
  intros H. unfold submit, handleSubmit.
  apply trim_falsy in H. now rewrite H.
Qed.

Lemma submit_valid form w s :
  ¬ blank (form_title form) →
  submit form w s = onSubmit (trim (form_title form)) (trim (form_content form)) w s.
Proof.
  intros H. unfold submit, handleSubmit.
  destruct (negb (truthy (trim (form_title form)))) eqn:E; [| reflexivity].
  apply trim_falsy in E. contradiction.
Qed.

(** C2. For each of Load, Create, Update and Delete, from every starting
    state: when the store answers the request with an error, the list of
    memos after the handler is the list before it. *)
Theorem failure_keeps_memos (w : World) (s : AppState) :
  (∀ e, select_all w = Failure e →
        memos (final_state (fetchMemos w s)) = memos s)
  ∧ (∀ title content e,
        insert_row w title content = Failure e →
        memos (final_state (handleCreateMemo title content w s)) = memos s)
  ∧ (∀ id title content e,
        update_row w id title content (now_iso w) = Failure e →
        memos (final_state (handleUpdateMemo id title content w s)) = memos s)
  ∧ (∀ id e,
        delete_row w id = Failure e →
        memos (final_state (handleDeleteMemo id w s)) = memos s).
Proof.
  repeat split.
  - intros e H. now rewrite fetchMemos_run, H.
  - intros title content e H. now rewrite handleCreateMemo_run, H.
  - intros id title content e H. now rewrite handleUpdateMemo_run, H.
  - intros id e H. rewrite handleDeleteMemo_run, H.
    now destruct (confirm_answer w ConfirmDelete).
Qed.

(** With the store unreachable, the list [[A; B]] survives all four
    operations. *)
Lemma failure_keeps_memos_witness :
  memos (final_state (fetchMemos world_down state_AB)) = [memoA; memoB]
  ∧ memos (final_state (handleCreateMemo (js "Groceries") (js "") world_down state_AB))
    = [memoA; memoB]
  ∧ memos (final_state (handleUpdateMemo (IdNum 2) (js "Recipe v2") (js "") world_down state_AB))
    = [memoA; memoB]
  ∧ memos (final_state (handleDeleteMemo (IdNum 1) world_down state_AB))
    = [memoA; memoB].
Proof.
  destruct (failure_keeps_memos world_down state_AB) as (Hl & Hc & Hu & Hd).
  split; [exact (Hl offline eq_refl) |].
  split; [exact (Hc (js "Groceries") (js "") offline eq_refl) |].
  split; [exact (Hu (IdNum 2) (js "Recipe v2") (js "") offline eq_refl) |].
  exact (Hd (IdNum 1) offline eq_refl).
Defined.

(** C3. From every starting list, a Create whose insert succeeds with the
    record [r] yields the list [r :: old]: one element longer, [r] first,
    and the old elements behind it, unchanged and in their order. *)
Theorem create_prepends (w : World) (s : AppState) (title content : list N)
    (r : Memo) :
  insert_row w title content = Success r →
  let l' := memos (final_state (handleCreateMemo title content w s)) in
  length l' = S (length (memos s))
  ∧ l' !! 0 = Some r
  ∧ (∀ i, l' !! S i = memos s !! i)
  ∧ l' = r :: memos s.
Proof.
  intros H. rewrite handleCreateMemo_run, H. cbn. auto.
Qed.

Lemma create_prepends_witness :
  memos (final_state (handleCreateMemo (js "Groceries") (js "Milk, eggs") world_up state_AB))
  = [memoC; memoA; memoB].
Proof.
  exact (proj2 (proj2 (proj2
    (create_prepends world_up state_AB (js "Groceries") (js "Milk, eggs") memoC eq_refl)))).
Defined.

(** *** Lists under [map] and [filter] *)

Section ListFacts.

Context {A B : Type}.

Lemma map_lookup (f : A → B) (l : list A) (i : nat) :
  List.map f l !! i = f <$> l !! i.
Proof.
  revert i; induction l as [| x l IH]; intros [| i]; simpl; auto.
Qed.

Lemma map_unchanged (f : A → A) (l : list A) :
  (∀ x, x ∈ l → f x = x) → List.map f l = l.
Proof.
  induction l as [| x l IH]; intros H; simpl; [reflexivity |].
  rewrite H by apply list_elem_of_here.
  rewrite IH; [reflexivity |].
  intros y Hy. apply H. now apply list_elem_of_further.
Qed.

Lemma filter_unchanged (p : A → bool) (l : list A) :
  (∀ x, x ∈ l → p x = true) → List.filter p l = l.
Proof.
  induction l as [| x l IH]; intros H; simpl; [reflexivity |].
  rewrite H by apply list_elem_of_here.
  rewrite IH; [reflexivity |].
  intros y Hy. apply H. now apply list_elem_of_further.
Qed.

Lemma filter_sublist (p : A → bool) (l : list A) : sublist (List.filter p l) l.
Proof.
  induction l as [| x l IH]; simpl; [constructor |].
  destruct (p x); now constructor.
Qed.

End ListFacts.

Lemma ids_sublist l k : sublist l k → sublist (ids l) (ids k).
Proof. unfold ids. induction 1; simpl; now constructor. Qed.

(** C4. From every starting list, an Update of [id] whose call succeeds
    with the record [r] yields a list of the same length in which every
    entry with identifier [id] is [r], the record the store returned, and
    every other entry is unchanged at its position; when the list holds an
    entry with identifier [id], [r] is in the result. *)
Theorem update_replaces (w : World) (s : AppState) (id : Ident)
    (title content : list N) (r : Memo) :
  update_row w id title content (now_iso w) = Success r →
  let l' := memos (final_state (handleUpdateMemo id title content w s)) in
  length l' = length (memos s)
  ∧ (∀ i m, memos s !! i = Some m → Memo.id m = id → l' !! i = Some r)
  ∧ (∀ i m, memos s !! i = Some m → Memo.id m ≠ id → l' !! i = Some m)
  ∧ ((∃ m, m ∈ memos s ∧ Memo.id m = id) → r ∈ l').
Proof.
  intros H. rewrite handleUpdateMemo_run, H. cbn.
  assert (Hhit : ∀ i m, memos s !! i = Some m → Memo.id m = id →
    List.map (λ m, if strict_eq (Memo.id m) id then r else m) (memos s) !! i
    = Some r).
  { intros i m Hi Hm. rewrite map_lookup, Hi. simpl.
    apply strict_eq_spec in Hm. now rewrite Hm. }
  split; [apply length_map |].
  split; [exact Hhit |].
  split.
  - intros i m Hi Hm. rewrite map_lookup, Hi. simpl.
    apply strict_eq_false in Hm. now rewrite Hm.
  - intros (m & Hin & Hm).
    apply list_elem_of_lookup in Hin as [i Hi].
    apply list_elem_of_lookup. exists i. eauto.
Qed.

Lemma update_replaces_witness :
  memos (final_state (handleUpdateMemo (IdNum 2) (js "Recipe v2") (js "...") world_up state_AB))
    !! 1
  = Some (Memo.mk (IdNum 2) (js "Recipe v2") (js "...") "2024-05-01"
            (Some "2024-05-03T09:00:00.000Z")).
Proof.
  exact (proj1 (proj2
    (update_replaces world_up state_AB (IdNum 2) (js "Recipe v2") (js "...") _ eq_refl))
    1 memoB eq_refl eq_refl).
Defined.

(** C10. From every starting list and for every [id], Update keeps the
    length of the list, whatever the store answers; and when no entry has
    identifier [id], the list after the handler is the list before it. *)
Theorem update_absent_id (w : World) (s : AppState) (id : Ident)
    (title content : list N) :
  let l' := memos (final_state (handleUpdateMemo id title content w s)) in
  length l' = length (memos s)
  ∧ ((∀ m, m ∈ memos s → Memo.id m ≠ id) → l' = memos s).
Proof.
  rewrite handleUpdateMemo_run.
  destruct (update_row w id title content (now_iso w)) as [r | e]; cbn;
    [| now split].
  split; [apply length_map |].
  intros H. apply map_unchanged. intros m Hm.
  apply H, strict_eq_false in Hm. now rewrite Hm.
Qed.

Lemma update_absent_id_witness :
  memos (final_state (handleUpdateMemo (IdNum 9) (js "Ghost") (js "") world_up state_AB))
  = [memoA; memoB].
Proof.
  apply (proj2 (update_absent_id world_up state_AB (IdNum 9) (js "Ghost") (js ""))).
  intros m Hm. cbn in Hm.
  apply elem_of_cons in Hm as [-> | Hm]; [discriminate |].
  apply elem_of_cons in Hm as [-> | Hm]; [discriminate |].
  now apply elem_of_nil in Hm.
Defined.

(** C5. From every starting list, a confirmed Delete of [id] whose call
    succeeds yields a list with no entry of identifier [id]: the entries
    with another identifier, each kept once and in their order. When the
    starting list holds exactly one entry with that identifier, the result
    is the list without it and is one element shorter. *)
Theorem delete_removes (w : World) (s : AppState) (id : Ident) :
  confirm_answer w ConfirmDelete = true →
  (∃ u, delete_row w id = Success u) →
  let l' := memos (final_state (handleDeleteMemo id w s)) in
  (∀ m, m ∈ l' → Memo.id m ≠ id)
  ∧ selected (λ m, Memo.id m ≠ id) (memos s) l'
  ∧ (∀ pre x post,
       memos s = pre ++ x :: post →
       Memo.id x = id →
       (∀ m, m ∈ pre ++ post → Memo.id m ≠ id) →
       l' = pre ++ post ∧ S (length l') = length (memos s)).
Proof.
  intros Hc [u Hu]. rewrite handleDeleteMemo_run, Hc, Hu. cbn.
  assert (Hp : ∀ m, negb (strict_eq (Memo.id m) id) = true ↔ Memo.id m ≠ id).
  { intros m. rewrite negb_true_iff. apply strict_eq_false. }
  assert (Hsel := filter_selected (λ m, Memo.id m ≠ id) _ (memos s) Hp).
  split; [| split; [exact Hsel |]].
  - intros m Hm. now apply (selected_elem_of _ _ _ m Hsel) in Hm.
  - intros pre x post -> Hx Hrest.
    rewrite List.filter_app. simpl.
    apply strict_eq_spec in Hx. rewrite Hx. simpl.
    rewrite !filter_unchanged.
    + split; [reflexivity |]. rewrite !length_app. simpl. lia.
    + intros m Hm. apply Hp, Hrest, elem_of_app. now right.
    + intros m Hm. apply Hp, Hrest, elem_of_app. now left.
Qed.

Lemma delete_removes_witness :
  memos (final_state (handleDeleteMemo (IdNum 1) world_up state_AB)) = [memoB]
  ∧ S (length (memos (final_state (handleDeleteMemo (IdNum 1) world_up state_AB))))
    = 2.
Proof.
  apply (proj2 (proj2 (delete_removes world_up state_AB (IdNum 1) eq_refl
                         (ex_intro _ tt eq_refl)))
           [] memoA [memoB] eq_refl eq_refl).
  intros m Hm. cbn in Hm.
  apply elem_of_cons in Hm as [-> | Hm]; [discriminate |].
  now apply elem_of_nil in Hm.
Defined.

(** *** One entry per identifier *)



Lemma distinct_ids_AB : distinct_ids [memoA; memoB].
Proof.
  unfold distinct_ids. cbn.
  apply NoDup_cons. split.
  - intros H. apply list_elem_of_singleton in H. discriminate.
  - apply NoDup_singleton.
Qed.


(** C9. Delete sends its request only after the user has confirmed: every
    request in the trace of the handler is the delete of [id] and comes
    right after a confirmation answered yes. When the user declines, the
    handler sends nothing and leaves the whole state as it was. *)
Theorem delete_needs_confirmation (w : World) (s : AppState) (id : Ident) :
  (confirm_answer w ConfirmDelete = false →
   handleDeleteMemo id w s = (tt, s, [Asked ConfirmDelete false]))
  ∧ (∀ q, Requested q ∈ trace (handleDeleteMemo id w s) →
       confirm_answer w ConfirmDelete = true
       ∧ q = Delete id
       ∧ ∃ rest, trace (handleDeleteMemo id w s)
                 = Asked ConfirmDelete true :: Requested (Delete id) :: rest).
Proof.
  rewrite handleDeleteMemo_run. split.
  - intros H. now rewrite H.
  - intros q. destruct (confirm_answer w ConfirmDelete).
    + destruct (delete_row w id) as [u | e]; cbn; intros H;
        (split; [reflexivity |]); (split; [| eauto]);
        repeat (apply elem_of_cons in H as [H | H]; [congruence |]);
        now apply elem_of_nil in H.
    + cbn. intros H.
      apply list_elem_of_singleton in H. discriminate.
Qed.

Lemma delete_needs_confirmation_witness :
  handleDeleteMemo (IdNum 1) world_declined state_AB
  = (tt, state_AB, [Asked ConfirmDelete false]).
Proof.
  exact (proj1 (delete_needs_confirmation world_declined state_AB (IdNum 1)) eq_refl).
Defined.

(** *** Submitting the modal form *)

Lemma trimEnd_blank s : blank (trimEnd s) ↔ blank s.
Proof.
  induction s as [| c s IH]; simpl; [tauto |].
  rewrite blank_cons.
  destruct (trimEnd s) as [| d t] eqn:E.
  - assert (Hs : blank s) by now apply trimEnd_empty.
    destruct (isWhiteSpace c) eqn:Hc.
    + split; [tauto | intros _; apply blank_empty].
    + rewrite blank_cons, Hc. split; intros [? ?]; discriminate.
  - rewrite blank_cons, IH. tauto.
Qed.

Lemma trim_blank s : blank (trim s) ↔ blank s.
Proof. unfold trim. now rewrite trimEnd_blank, trimStart_blank. Qed.

(** The requests of a valid submission carry the trimmed title. *)
Lemma onSubmit_requests title content w s q :
  Requested q ∈ trace (onSubmit title content w s) →
  query_title q = Some title.
Proof.
  rewrite onSubmit_run. cbn.
  destruct (editingMemo s) as [m |].
  - rewrite handleUpdateMemo_run.
    destruct (update_row w (Memo.id m) title content (now_iso w)); cbn; intros H;
      repeat (apply elem_of_cons in H as [H | H];
              [first [now injection H as -> | discriminate] |]);
      now apply elem_of_nil in H.
  - rewrite handleCreateMemo_run.
    destruct (insert_row w title content); cbn; intros H;
      repeat (apply elem_of_cons in H as [H | H];
              [first [now injection H as -> | discriminate] |]);
      now apply elem_of_nil in H.
Qed.

(** C6. A submission, of a new memo or of an edit, whose title is blank
    sends no request and leaves the list, and the whole state, as it was:
    all it does is alert the user. This holds for the form with any
    [onSubmit] prop and for the form [App] renders; and every request a
    submission sends carries a title that is not blank, so the handlers
    behind the form are never run on a blank title. *)
Theorem blank_title_rejected (w : World) (s : AppState) (form : ModalState) :
  (blank (form_title form) →
   (∀ k, handleSubmit form k w s = (tt, s, [Alerted TitleRequired]))
   ∧ submit form w s = (tt, s, [Alerted TitleRequired]))
  ∧ (∀ q, Requested q ∈ trace (submit form w s) →
       ∃ t, query_title q = Some t ∧ ¬ blank t).
Proof.
  split.
  - intros H. split; [| now apply submit_blank].
    intros k. unfold handleSubmit.
    apply trim_falsy in H. now rewrite H.
  - intros q Hq.
    destruct (negb (truthy (trim (form_title form)))) eqn:E.
    + apply trim_falsy in E. rewrite (submit_blank _ _ _ E) in Hq.
      cbn in Hq. apply list_elem_of_singleton in Hq. discriminate.
    + assert (Hnb : ¬ blank (form_title form)).
      { intros Hb. apply trim_falsy in Hb. congruence. }
      rewrite (submit_valid _ _ _ Hnb) in Hq.
      apply onSubmit_requests in Hq.
      exists (trim (form_title form)). split; [exact Hq |].
      now rewrite trim_blank.
Qed.

Lemma blank_title_rejected_witness :
  submit (mkModal (js "  ") (js "content")) world_up state_new
  = (tt, state_new, [Alerted TitleRequired])
  ∧ submit (mkModal (js "  ") (js "content")) world_up state_edit
    = (tt, state_edit, [Alerted TitleRequired]).
Proof.
  split.
  - exact (proj2 (proj1 (blank_title_rejected world_up state_new
                           (mkModal (js "  ") (js "content"))) blank_two_spaces)).
  - exact (proj2 (proj1 (blank_title_rejected world_up state_edit
                           (mkModal (js "  ") (js "content"))) blank_two_spaces)).
Defined.

Lemma not_blank_Groceries : ¬ blank (js "Groceries").
Proof. intros H. apply blank_forallb in H. discriminate H. Qed.

(** A failed create, step by step: the insert is sent and answered by an
    error, the error is logged, and the modal is closed. *)
Example failed_create_run :
  submit (mkModal (js "Groceries") (js "Milk, eggs")) world_down state_new
  = (tt, state_AB,
     [Requested (Insert (js "Groceries") (js "Milk, eggs"));
      Logged "createMemo error" offline]).
Proof. reflexivity. Qed.

(** C7, as stated, fails: with the modal open on a new memo and the store
    unreachable, the submission of "Groceries" closes the modal. *)
Lemma edit_session_closed_on_failure : ¬ edit_session_survives_failure.
Proof.
  intros H.
  specialize (H world_down state_new (mkModal (js "Groceries") (js "Milk, eggs"))
                eq_refl not_blank_Groceries (ex_intro _ offline eq_refl)).
  discriminate H.
Qed.

(** After a valid submission the modal is closed, whatever the store
    answered. *)
Lemma submit_closes_modal w s form :
  ¬ blank (form_title form) →
  isModalOpen (final_state (submit form w s)) = false.
Proof.
  intros H. now rewrite (submit_valid _ _ _ H), onSubmit_run.
Qed.

(** C7, amended. For every valid submission of the edit session, create or
    update, whose call to the store fails: the modal is closed when the
    handler returns, as it is after a successful call; [editingMemo] keeps
    its value and the list of memos is unchanged. *)
Theorem failed_submit_closes_modal (w : World) (s : AppState)
    (form : ModalState) :
  ¬ blank (form_title form) →
  submit_call_fails w s form →
  let s' := final_state (submit form w s) in
  isModalOpen s' = false
  ∧ editingMemo s' = editingMemo s
  ∧ memos s' = memos s.
Proof.
  intros Hnb Hfail. rewrite (submit_valid _ _ _ Hnb), onSubmit_run.
  unfold submit_call_fails in Hfail. cbn.
  destruct (editingMemo s) as [m |] eqn:E; destruct Hfail as [e He].
  - rewrite handleUpdateMemo_run, He. cbn. auto.
  - rewrite handleCreateMemo_run, He. cbn. auto.
Qed.

Lemma failed_submit_closes_modal_witness :
  isModalOpen (final_state (submit (mkModal (js "Groceries") (js "Milk, eggs")) world_down state_new))
  = false
  ∧ memos (final_state (submit (mkModal (js "Recipe v2") (js "")) world_down state_edit))
    = [memoA; memoB].
Proof.
  split.
  - exact (proj1 (failed_submit_closes_modal world_down state_new
                    (mkModal (js "Groceries") (js "Milk, eggs")) not_blank_Groceries
                    (ex_intro _ offline eq_refl))).
  - refine (proj2 (proj2 (failed_submit_closes_modal world_down state_edit
                    (mkModal (js "Recipe v2") (js "")) _ (ex_intro _ offline eq_refl)))).
    intros H. apply blank_forallb in H. discriminate H.
Defined.

(** ** Further properties of the component *)

(** *** What a submission sends *)

Section TrimFacts.

Implicit Types (s t : list N) (u : N).

Lemma trimStart_split s : ∃ pre, blank pre ∧ s = pre ++ trimStart s.
Proof.
  induction s as [| u s (pre & Hpre & Hs)]; simpl.
  - exists []. split; [apply blank_empty | reflexivity].
  - destruct (isWhiteSpace u) eqn:Hu.
    + exists (u :: pre). split; [now apply blank_cons |].
      simpl. now rewrite <- Hs.
    + exists []. split; [apply blank_empty | reflexivity].
Qed.

Lemma trimStart_head s u rest :
  trimStart s = u :: rest → isWhiteSpace u = false.
Proof.
  induction s as [| a s IH]; simpl; [discriminate |].
  destruct (isWhiteSpace a) eqn:Ha; [exact IH |].
  intros [= <- _]. exact Ha.
Qed.

Lemma trimEnd_split s : ∃ post, blank post ∧ s = trimEnd s ++ post.
Proof.
  induction s as [| u s (post & Hpost & Hs)]; simpl.
  - exists []. split; [apply blank_empty | reflexivity].
  - destruct (trimEnd s) as [| d t] eqn:E.
    + simpl in Hs. destruct (isWhiteSpace u) eqn:Hu.
      * exists (u :: post). split; [now apply blank_cons |].
        simpl. now rewrite <- Hs.
      * exists post. split; [exact Hpost |]. simpl. now rewrite <- Hs.
    + exists post. split; [exact Hpost |]. simpl in Hs. simpl. now rewrite <- Hs.
Qed.

Lemma trimEnd_last s u init :
  trimEnd s = init ++ [u] → isWhiteSpace u = false.
Proof.
  revert init; induction s as [| a s IH]; intros init; simpl.
  - destruct init; discriminate.
  - destruct (trimEnd s) as [| d t] eqn:E.
    + destruct (isWhiteSpace a) eqn:Ha; [destruct init; discriminate |].
      destruct init as [| b init]; simpl.
      * intros [= <-]. exact Ha.
      * intros [= _ H]. destruct init; discriminate H.
    + destruct init as [| b init]; simpl.
      * intros H. discriminate H.
      * intros [= _ H]. exact (IH init H).
Qed.

(** [trim] removes exactly the white space around its argument. *)
Lemma trim_stripped s : stripped s (trim s).
Proof.
  unfold stripped, trim.
  destruct (trimStart_split s) as (pre & Hpre & Hs).
  destruct (trimEnd_split (trimStart s)) as (post & Hpost & Ht).
  split; [| split].
  - exists pre, post. repeat split; auto. now rewrite <- Ht.
  - intros u rest H. rewrite H in Ht. simpl in Ht.
    exact (trimStart_head _ _ _ Ht).
  - intros u init. apply trimEnd_last.
Qed.

End TrimFacts.

Lemma requests_of_elem q t : Requested q ∈ t ↔ q ∈ requests_of t.
Proof.
  induction t as [| e t IH]; simpl.
  - now rewrite !elem_of_nil.
  - rewrite elem_of_cons, IH. destruct e as [q' | d b | d | l e].
    + rewrite elem_of_cons. split.
      * intros [[= ->] | H]; auto.
      * intros [-> | H]; auto.
    + split; [intros [H | H]; [discriminate | exact H] | auto].
    + split; [intros [H | H]; [discriminate | exact H] | auto].
    + split; [intros [H | H]; [discriminate | exact H] | auto].
Qed.

(** A valid submission sends one request: the update of the memo being
    edited, or the insert of a new one. *)
Lemma onSubmit_requests_of title content w s :
  requests_of (trace (onSubmit title content w s)) =
  [match editingMemo s with
   | Some m => Update (Memo.id m) title content (now_iso w)
   | None => Insert title content
   end].
Proof.
  rewrite onSubmit_run. cbn.
  destruct (editingMemo s) as [m |].
  - rewrite handleUpdateMemo_run.
    now destruct (update_row w (Memo.id m) title content (now_iso w)).
  - rewrite handleCreateMemo_run.
    now destruct (insert_row w title content).
Qed.

(** X1. Every request that a submission of the form sends carries the
    title and the content of the form without the white space around them:
    the title sent is not empty, and neither field sent starts or ends with
    white space. *)
Theorem submit_sends_stripped (w : World) (s : AppState) (form : ModalState)
    (q : Query) :
  Requested q ∈ trace (submit form w s) →
  ∃ t c,
    query_title q = Some t ∧ query_content q = Some c
    ∧ stripped (form_title form) t ∧ stripped (form_content form) c
    ∧ t ≠ [].
Proof.
  intros Hq.
  destruct (negb (truthy (trim (form_title form)))) eqn:E.
  - apply trim_falsy in E. rewrite (submit_blank _ _ _ E) in Hq.
    cbn in Hq. apply list_elem_of_singleton in Hq. discriminate.
  - assert (Hnb : ¬ blank (form_title form)).
    { intros Hb. apply trim_falsy in Hb. congruence. }
    rewrite (submit_valid _ _ _ Hnb) in Hq.
    apply requests_of_elem in Hq. rewrite onSubmit_requests_of in Hq.
    apply list_elem_of_singleton in Hq.
    exists (trim (form_title form)), (trim (form_content form)).
    split; [subst q; now destruct (editingMemo s) |].
    split; [subst q; now destruct (editingMemo s) |].
    split; [apply trim_stripped |].
    split; [apply trim_stripped |].
    intros H. rewrite H in E. discriminate.
Qed.

Lemma submit_sends_stripped_witness :
  ∃ t c,
    query_title (Insert (js "Groceries") (js "Milk, eggs")) = Some t
    ∧ query_content (Insert (js "Groceries") (js "Milk, eggs")) = Some c
    ∧ stripped (js "  Groceries ") t ∧ stripped (js "Milk, eggs  ") c
    ∧ t ≠ [].
Proof.
  apply (submit_sends_stripped world_up state_new
           (mkModal (js "  Groceries ") (js "Milk, eggs  "))).
  cbn. apply list_elem_of_here.
Defined.

(** X2. Pressing the new-memo button while the modal is closed, whatever
    memo was edited before: the modal is mounted with an empty form, which
    cannot be saved as it is (the user is alerted and nothing is sent), the
    list is untouched, and a submission with a valid title sends exactly
    one request, an insert, never an update. *)
Theorem new_memo_submission (w : World) (s : AppState) (form : ModalState) :
  isModalOpen s = false →
  let s1 := final_state (openNewMemoModal w s) in
  form_at_mount s s1 = Some (mkModal [] [])
  ∧ submit (mkModal [] []) w s1 = (tt, s1, [Alerted TitleRequired])
  ∧ memos s1 = memos s
  ∧ (¬ blank (form_title form) →
     ∃ t c, requests_of (trace (submit form w s1)) = [Insert t c]
            ∧ stripped (form_title form) t ∧ stripped (form_content form) c).
Proof.
  intros Hclosed. cbn. unfold form_at_mount. rewrite Hclosed. cbn.
  repeat split.
  intros Hnb. rewrite (submit_valid _ _ _ Hnb), onSubmit_requests_of. cbn.
  eexists _, _. split; [reflexivity |].
  split; apply trim_stripped.
Qed.

Lemma new_memo_submission_witness :
  form_at_mount state_edited (final_state (openNewMemoModal world_up state_edited))
  = Some (mkModal [] [])
  ∧ ∃ t c,
      requests_of (trace (submit (mkModal (js "Groceries") (js "Milk, eggs")) world_up
                            (final_state (openNewMemoModal world_up state_edited))))
      = [Insert t c]
      ∧ stripped (js "Groceries") t ∧ stripped (js "Milk, eggs") c.
Proof.
  destruct (new_memo_submission world_up state_edited
              (mkModal (js "Groceries") (js "Milk, eggs")) eq_refl)
    as (Hform & _ & _ & Hsend).
  exact (conj Hform (Hsend not_blank_Groceries)).
Defined.

(** X3. Pressing the edit button of the card of [memo] while the modal is
    closed: the modal is mounted with the title and the content of [memo]
    in its form, the list is untouched, and a submission with a valid title
    sends exactly one request, the update of the row of identifier
    [memo.id], stamped with the current time. *)
Theorem edit_memo_submission (w : World) (s : AppState) (memo : Memo)
    (form : ModalState) :
  isModalOpen s = false →
  let s1 := final_state (card_onEdit memo w s) in
  form_at_mount s s1 = Some (mkModal (Memo.title memo) (Memo.content memo))
  ∧ memos s1 = memos s
  ∧ (¬ blank (form_title form) →
     ∃ t c, requests_of (trace (submit form w s1))
            = [Update (Memo.id memo) t c (now_iso w)]
            ∧ stripped (form_title form) t ∧ stripped (form_content form) c).
Proof.
  intros Hclosed. cbn. unfold form_at_mount. rewrite Hclosed. cbn.
  repeat split.
  intros Hnb. rewrite (submit_valid _ _ _ Hnb), onSubmit_requests_of. cbn.
  eexists _, _. split; [reflexivity |].
  split; apply trim_stripped.
Qed.

Lemma not_blank_Recipe_v2 : ¬ blank (js "Recipe v2").
Proof. intros H. apply blank_forallb in H. discriminate H. Qed.

Lemma edit_memo_submission_witness :
  form_at_mount state_AB (final_state (card_onEdit memoB world_up state_AB))
  = Some (mkModal (js "Recipe") (js "Milk, eggs"))
  ∧ ∃ t c,
      requests_of (trace (submit (mkModal (js "Recipe v2") (js "")) world_up
                            (final_state (card_onEdit memoB world_up state_AB))))
      = [Update (IdNum 2) t c "2024-05-03T09:00:00.000Z"]
      ∧ stripped (js "Recipe v2") t ∧ stripped (js "") c.
Proof.
  destruct (edit_memo_submission world_up state_AB memoB
              (mkModal (js "Recipe v2") (js "")) eq_refl)
    as (Hform & _ & Hsend).
  exact (conj Hform (Hsend not_blank_Recipe_v2)).
Defined.

(** *** The filtered list *)

Lemma filteredMemos_sublist toLowerCase L s :
  sublist (filteredMemos toLowerCase L s) L.
Proof.
  unfold filteredMemos. destruct (negb (truthy (trim s))); [reflexivity |].
  apply filter_sublist.
Qed.

Lemma filteredMemos_elem toLowerCase L s m :
  m ∈ filteredMemos toLowerCase L s
  ↔ m ∈ L ∧ (blank s ∨ lowered_hit toLowerCase s m).
Proof.
  unfold filteredMemos. destruct (negb (truthy (trim s))) eqn:E.
  - apply trim_falsy in E. tauto.
  - assert (Hnb : ¬ blank s) by (intros Hb; apply trim_falsy in Hb; congruence).
    rewrite !list_elem_of_In, List.filter_In, search_hit_spec. tauto.
Qed.

(** X6. When the list holds at most one entry per identifier, so does the
    filtered list, for every search text and every lower-case conversion:
    filtering never brings two cards of one identifier on screen. *)
Theorem filtered_ids_distinct (toLowerCase : list N → list N) (L : list Memo)
    (s : list N) :
  distinct_ids L → distinct_ids (filteredMemos toLowerCase L s).
Proof.
  intros H. unfold distinct_ids.
  exact (sublist_NoDup _ _ H (ids_sublist _ _ (filteredMemos_sublist _ L s))).
Qed.

Lemma filtered_ids_distinct_witness :
  distinct_ids (filteredMemos toLowerCase_latin_greek [memoA; memoB] (js "e")).
Proof.
  exact (filtered_ids_distinct toLowerCase_latin_greek [memoA; memoB] (js "e")
           distinct_ids_AB).
Defined.

(** *** What is on screen *)

(** X8. After the load, from the initial state or from any other: the
    loading notice is gone and one select was sent. From the initial state
    the grid shows the rows received; a failed load, a [null] payload and an
    empty table all show the empty notice, so a failure is not told apart
    on screen from a table without rows. A successful load from any state
    leaves the rows received, whatever the list held. *)
Theorem load_result (toLowerCase : list N → list N) (w : World) (s : AppState) :
  main_content toLowerCase (final_state (fetchMemos w s)) ≠ LoadingNotice
  ∧ requests_of (trace (fetchMemos w s)) = [SelectAll]
  ∧ main_content toLowerCase (final_state (on_mount w initial_state))
    = match select_all w with
      | Success (Some (m :: l)) => MemoGrid (m :: l)
      | _ => EmptyNotice
      end
  ∧ (∀ data, select_all w = Success data →
       memos (final_state (fetchMemos w s)) = default [] data).
Proof.
  unfold on_mount. rewrite !fetchMemos_run.
  split; [| split; [| split]].
  - destruct (select_all w); unfold main_content; cbn;
      match goal with |- context [Nat.eqb ?n 0] => destruct (Nat.eqb n 0) end;
      discriminate.
  - now destruct (select_all w).
  - destruct (select_all w) as [[[| m l] |] | e]; reflexivity.
  - intros data ->. reflexivity.
Qed.

(** *** What an action touches *)

(** X9. Which action can change which state cell: the search text changes
    only by typing in the search input; the list only by the load, a delete
    or a submission; [loading] only by the load; [editingMemo] only by the
    two buttons that open the modal; [isModalOpen] only by those, by
    closing the modal or by a submission. So a request to the store never
    clears the search and a delete never touches the modal. *)
Theorem action_frame (a : Action) (w : World) (s : AppState) :
  let s' := final_state (perform a w s) in
  (search s' ≠ search s → ∃ v, a = TypeSearch v)
  ∧ (memos s' ≠ memos s →
       a = Mount ∨ (∃ memo, a = ClickDelete memo) ∨ ∃ form, a = SubmitForm form)
  ∧ (loading s' ≠ loading s → a = Mount)
  ∧ (editingMemo s' ≠ editingMemo s → a = ClickNewMemo ∨ ∃ memo, a = ClickEdit memo)
  ∧ (isModalOpen s' ≠ isModalOpen s →
       a = ClickNewMemo ∨ (∃ memo, a = ClickEdit memo)
       ∨ a = CloseModal ∨ ∃ form, a = SubmitForm form).
Proof.
  destruct a as [| v | | memo | memo | | form]; cbn.
  - unfold on_mount. rewrite fetchMemos_run.
    destruct (select_all w); cbn; repeat split; intros H; eauto; now elim H.
  - repeat split; intros H; eauto; now elim H.
  - repeat split; intros H; eauto; now elim H.
  - repeat split; intros H; eauto; now elim H.
  - unfold card_onDelete. rewrite handleDeleteMemo_run.
    destruct (confirm_answer w ConfirmDelete);
      [destruct (delete_row w (Memo.id memo)) |];
      cbn; repeat split; intros H; eauto; now elim H.
  - repeat split; intros H; eauto; now elim H.
  - destruct (negb (truthy (trim (form_title form)))) eqn:E.
    + apply trim_falsy in E. rewrite (submit_blank _ _ _ E). cbn.
      repeat split; intros H; eauto; now elim H.
    + assert (Hnb : ¬ blank (form_title form))
        by (intros Hb; apply trim_falsy in Hb; congruence).
      rewrite (submit_valid _ _ _ Hnb), onSubmit_run. cbn.
      destruct (editingMemo s) as [m |] eqn:Ee;
        [rewrite handleUpdateMemo_run;
         destruct (update_row w (Memo.id m) _ _ (now_iso w))
        | rewrite handleCreateMemo_run;
          destruct (insert_row w _ _)];
        cbn; repeat split; intros H; eauto 6; try (now elim H);
        now elim H.
Qed.

Lemma action_frame_witness : ∃ v, TypeSearch (js "trip") = TypeSearch v.
Proof.
  apply (proj1 (action_frame (TypeSearch (js "trip")) world_up state_AB)).
  cbn. discriminate.
Defined.

Lemma load_result_witness :
  memos (final_state (fetchMemos world_up state_edit)) = [memoA; memoB].
Proof.
  exact (proj2 (proj2 (proj2 (load_result toLowerCase_latin_greek world_up state_edit)))
           _ eq_refl).
Defined.

(** X10. Every action sends at most one request to the store, logs at most
    one error and only for a request it sent, and shows at most one dialog;
    an action that alerts sends nothing; and only the load, a delete and a
    submission send anything. *)
Theorem action_trace (a : Action) (w : World) (s : AppState) :
  let t := trace (perform a w s) in
  length (requests_of t) ≤ 1
  ∧ length (logs_of t) ≤ length (requests_of t)
  ∧ length (dialogs_of t) ≤ 1
  ∧ (Alerted TitleRequired ∈ t → requests_of t = [])
  ∧ (requests_of t ≠ [] →
       a = Mount ∨ (∃ memo, a = ClickDelete memo) ∨ ∃ form, a = SubmitForm form).
Proof.
  destruct a as [| v | | memo | memo | | form]; cbn.
  - unfold on_mount. rewrite fetchMemos_run.
    destruct (select_all w); trace_goals.
  - trace_goals.
  - unfold openNewMemoModal. run_handler. trace_goals.
  - unfold card_onEdit, openEditMemoModal. run_handler. trace_goals.
  - unfold card_onDelete. rewrite handleDeleteMemo_run.
    destruct (confirm_answer w ConfirmDelete);
      [destruct (delete_row w (Memo.id memo)) |]; trace_goals.
  - unfold closeModal. run_handler. trace_goals.
  - destruct (negb (truthy (trim (form_title form)))) eqn:E.
    + apply trim_falsy in E. rewrite (submit_blank _ _ _ E). trace_goals.
    + assert (Hnb : ¬ blank (form_title form))
        by (intros Hb; apply trim_falsy in Hb; congruence).
      rewrite (submit_valid _ _ _ Hnb), onSubmit_run. cbn.
      destruct (editingMemo s) as [m |];
        [rewrite handleUpdateMemo_run;
         destruct (update_row w (Memo.id m) _ _ (now_iso w))
        | rewrite handleCreateMemo_run;
          destruct (insert_row w _ _)];
        trace_goals.
Qed.

Lemma action_trace_witness :
  requests_of (trace (perform (SubmitForm (mkModal (js " ") (js "x"))) world_up state_new)) = [].
Proof.
  apply (proj1 (proj2 (proj2 (proj2
    (action_trace (SubmitForm (mkModal (js " ") (js "x"))) world_up state_new))))).
  cbn. apply list_elem_of_here.
Defined.

(** *** How the operations compose *)

Lemma not_in_ids l i : i ∉ ids l → ∀ m, m ∈ l → Memo.id m ≠ i.
Proof.
  intros Hi m Hm Heq. apply Hi. unfold ids.
  apply list_elem_of_In, in_map_iff. exists m.
  split; [exact Heq | now apply list_elem_of_In].
Qed.

Lemma delete_filter_fresh l i :
  i ∉ ids l → List.filter (λ m, negb (strict_eq (Memo.id m) i)) l = l.
Proof.
  intros Hi. apply filter_unchanged. intros m Hm.
  apply negb_true_iff, strict_eq_false. now apply (not_in_ids l).
Qed.

Lemma strict_eq_refl i : strict_eq i i = true.
Proof. now apply strict_eq_spec. Qed.

Lemma filter_comm {A} (p q : A → bool) (l : list A) :
  List.filter p (List.filter q l) = List.filter q (List.filter p l).
Proof.
  induction l as [| x l IH]; simpl; [reflexivity |].
  destruct (q x) eqn:Hq, (p x) eqn:Hp; simpl; rewrite ?Hq, ?Hp, IH; reflexivity.
Qed.

Lemma filter_idem {A} (p : A → bool) (l : list A) :
  List.filter p (List.filter p l) = List.filter p l.
Proof.
  apply filter_unchanged. intros x Hx.
  now apply list_elem_of_In, List.filter_In in Hx.
Qed.

(** The list after a confirmed delete that the store accepted. *)
Lemma handleDeleteMemo_done id w s :
  confirm_answer w ConfirmDelete = true →
  (∃ u, delete_row w id = Success u) →
  memos (final_state (handleDeleteMemo id w s))
  = List.filter (λ m, negb (strict_eq (Memo.id m) id)) (memos s).
Proof. intros Hc [u Hu]. now rewrite handleDeleteMemo_run, Hc, Hu. Qed.

(** X11. Creating a memo and then deleting it restores the list: when the
    insert answers with a row whose identifier is not yet in the list, a
    confirmed and successful delete of that identifier, right after, gives
    back the list as it was before the create. *)
Theorem create_then_delete (w1 w2 : World) (s : AppState)
    (title content : list N) (r : Memo) :
  insert_row w1 title content = Success r →
  Memo.id r ∉ ids (memos s) →
  confirm_answer w2 ConfirmDelete = true →
  (∃ u, delete_row w2 (Memo.id r) = Success u) →
  memos (final_state
           (handleDeleteMemo (Memo.id r) w2
              (final_state (handleCreateMemo title content w1 s))))
  = memos s.
Proof.
  intros Hi Hfresh Hc Hd.
  rewrite (handleDeleteMemo_done _ _ _ Hc Hd), handleCreateMemo_run, Hi. cbn.
  rewrite strict_eq_refl. cbn. now apply delete_filter_fresh.
Qed.

Lemma create_then_delete_witness :
  memos (final_state
           (handleDeleteMemo (IdNum 3) world_up
              (final_state (handleCreateMemo (js "Groceries") (js "Milk, eggs") world_up state_AB))))
  = [memoA; memoB].
Proof.
  apply (create_then_delete world_up world_up state_AB (js "Groceries") (js "Milk, eggs") memoC
           eq_refl).
  - intros H. cbn in H.
    apply elem_of_cons in H as [H | H]; [discriminate |].
    apply list_elem_of_singleton in H. discriminate.
  - reflexivity.
  - now exists tt.
Defined.

(** X12. Deletes commute and repeat harmlessly: two confirmed and
    successful deletes leave the same list in either order, and deleting
    the same identifier a second time changes nothing more. *)
Theorem delete_twice (w1 w2 : World) (s : AppState) (i j : Ident) :
  confirm_answer w1 ConfirmDelete = true →
  confirm_answer w2 ConfirmDelete = true →
  (∀ k, ∃ u, delete_row w1 k = Success u) →
  (∀ k, ∃ u, delete_row w2 k = Success u) →
  memos (final_state (handleDeleteMemo j w2 (final_state (handleDeleteMemo i w1 s))))
  = memos (final_state (handleDeleteMemo i w2 (final_state (handleDeleteMemo j w1 s))))
  ∧ memos (final_state (handleDeleteMemo i w2 (final_state (handleDeleteMemo i w1 s))))
    = memos (final_state (handleDeleteMemo i w1 s)).
Proof.
  intros Hc1 Hc2 Hd1 Hd2.
  rewrite !(handleDeleteMemo_done _ w2 _ Hc2 (Hd2 _)),
          !(handleDeleteMemo_done _ w1 _ Hc1 (Hd1 _)).
  split; [apply filter_comm | apply filter_idem].
Qed.

Lemma delete_twice_witness :
  memos (final_state (handleDeleteMemo (IdNum 2) world_up
                        (final_state (handleDeleteMemo (IdNum 1) world_up state_AB))))
  = memos (final_state (handleDeleteMemo (IdNum 1) world_up
                          (final_state (handleDeleteMemo (IdNum 2) world_up state_AB)))).
Proof.
  refine (proj1 (delete_twice world_up world_up state_AB (IdNum 1) (IdNum 2)
                   eq_refl eq_refl _ _));
    intros k; now exists tt.
Defined.

(** X13. The last update wins: after an update of [id] answered by a row of
    identifier [id], a second successful update of [id] leaves the list that
    the second update alone would have left. *)
Theorem update_twice (w1 w2 : World) (s : AppState) (id : Ident)
    (t1 c1 t2 c2 : list N) (r1 r2 : Memo) :
  update_row w1 id t1 c1 (now_iso w1) = Success r1 →
  Memo.id r1 = id →
  update_row w2 id t2 c2 (now_iso w2) = Success r2 →
  memos (final_state
           (handleUpdateMemo id t2 c2 w2 (final_state (handleUpdateMemo id t1 c1 w1 s))))
  = memos (final_state (handleUpdateMemo id t2 c2 w2 s)).
Proof.
  intros H1 Hid H2. rewrite !handleUpdateMemo_run, H2, H1. cbn.
  rewrite List.map_map. apply List.map_ext. intros m.
  destruct (strict_eq (Memo.id m) id) eqn:E; [| now rewrite E].
  apply strict_eq_spec in Hid. now rewrite Hid.
Qed.

Lemma update_twice_witness :
  memos (final_state
           (handleUpdateMemo (IdNum 2) (js "Recipe v3") (js "") world_up
              (final_state (handleUpdateMemo (IdNum 2) (js "Recipe v2") (js "") world_up state_AB))))
  = memos (final_state (handleUpdateMemo (IdNum 2) (js "Recipe v3") (js "") world_up state_AB)).
Proof.
  exact (update_twice world_up world_up state_AB (IdNum 2)
           (js "Recipe v2") (js "") (js "Recipe v3") (js "") _ _ eq_refl eq_refl eq_refl).
Defined.

(** *** The grid after a delete and after a create *)

Lemma main_content_grid toLowerCase s cards :
  main_content toLowerCase s = MemoGrid cards →
  cards = filteredMemos toLowerCase (memos s) (search s).
Proof.
  unfold main_content. destruct (loading s); [discriminate |].
  destruct (Nat.eqb _ 0); [discriminate |]. now intros [= <-].
Qed.

Lemma filteredMemos_filter toLowerCase (q : Memo → bool) L s :
  filteredMemos toLowerCase (List.filter q L) s
  = List.filter q (filteredMemos toLowerCase L s).
Proof.
  unfold filteredMemos. destruct (negb (truthy (trim s))); [reflexivity |].
  apply filter_comm.
Qed.

Lemma elem_of_ids m l : m ∈ l → Memo.id m ∈ ids l.
Proof.
  intros H. unfold ids. apply list_elem_of_In, in_map.
  now apply list_elem_of_In.
Qed.

(** In a list with distinct identifiers, filtering out the identifier of an
    entry removes that entry and nothing else. *)
Lemma delete_one l x :
  distinct_ids l → x ∈ l →
  S (length (List.filter (λ m, negb (strict_eq (Memo.id m) (Memo.id x))) l))
  = length l
  ∧ ∀ m, m ∈ List.filter (λ m, negb (strict_eq (Memo.id m) (Memo.id x))) l
         ↔ m ∈ l ∧ m ≠ x.
Proof.
  unfold distinct_ids. induction l as [| y l IH]; intros Hnd Hx.
  - now apply elem_of_nil in Hx.
  - cbn in Hnd. apply NoDup_cons in Hnd as [Hy Hnd].
    apply elem_of_cons in Hx as [-> | Hx].
    + simpl. rewrite strict_eq_refl. simpl.
      rewrite (delete_filter_fresh l (Memo.id y) Hy).
      split; [reflexivity |]. intros m. rewrite elem_of_cons. split.
      * intros Hm. split; [now right |].
        intros ->. now apply Hy, elem_of_ids.
      * intros [[-> | Hm] Hne]; [contradiction | exact Hm].
    + assert (Hxy : Memo.id y ≠ Memo.id x).
      { intros Heq. apply Hy. rewrite Heq. now apply elem_of_ids. }
      destruct (IH Hnd Hx) as [Hlen Hel].
      simpl. apply strict_eq_false in Hxy as Hxy'. rewrite Hxy'. simpl.
      split; [now rewrite Hlen |].
      intros m. rewrite !elem_of_cons, Hel. split.
      * intros [-> | [Hm Hne]]; [| tauto].
        split; [now left | intros ->; now apply Hxy].
      * intros [[-> | Hm] Hne]; tauto.
Qed.

(** X14. Pressing the delete button of a card on screen, confirmed and
    accepted by the store, in a list with distinct identifiers: the list
    loses that memo and no other, the grid loses that card and no other,
    and the remaining cards keep their order. *)
Theorem card_delete_exact (toLowerCase : list N → list N) (w : World)
    (s : AppState) (cards : list Memo) (memo : Memo) :
  main_content toLowerCase s = MemoGrid cards →
  memo ∈ cards →
  distinct_ids (memos s) →
  confirm_answer w ConfirmDelete = true →
  (∃ u, delete_row w (Memo.id memo) = Success u) →
  let s' := final_state (perform (ClickDelete memo) w s) in
  let cards' := filteredMemos toLowerCase (memos s') (search s') in
  S (length (memos s')) = length (memos s)
  ∧ (∀ m, m ∈ memos s' ↔ m ∈ memos s ∧ m ≠ memo)
  ∧ S (length cards') = length cards
  ∧ sublist cards' cards
  ∧ (∀ m, m ∈ cards' ↔ m ∈ cards ∧ m ≠ memo).
Proof.
  intros Hgrid Hmemo Hnd Hc [u Hu]. cbn. unfold card_onDelete.
  rewrite handleDeleteMemo_run, Hc, Hu. cbn.
  apply main_content_grid in Hgrid. subst cards.
  assert (Hin : memo ∈ memos s)
    by exact (elem_of_sublist _ _ _ Hmemo (filteredMemos_sublist _ _ _)).
  destruct (delete_one _ _ Hnd Hin) as [Hlen Hel].
  assert (Hnd' : distinct_ids (filteredMemos toLowerCase (memos s) (search s))).
  { unfold distinct_ids.
    exact (sublist_NoDup _ _ Hnd (ids_sublist _ _ (filteredMemos_sublist _ _ _))). }
  destruct (delete_one _ _ Hnd' Hmemo) as [Hlen' Hel'].
  rewrite filteredMemos_filter.
  split; [exact Hlen |]. split; [exact Hel |].
  split; [exact Hlen' |]. split; [apply filter_sublist | exact Hel'].
Qed.

Lemma card_delete_exact_witness :
  S (length (memos (final_state (perform (ClickDelete memoA) world_up state_AB)))) = 2.
Proof.
  refine (proj1 (card_delete_exact toLowerCase_latin_greek world_up state_AB
                   [memoA; memoB] memoA
                   eq_refl _ distinct_ids_AB eq_refl (ex_intro _ tt eq_refl))).
  apply list_elem_of_here.
Defined.

(** X15. A created memo and the search in progress: after a successful
    create the new row heads the filtered list when the search text is
    blank or when the title or content of the row, in lower case, contains
    the search text in lower case; when the search text is not blank and
    neither contains it, the memos shown are the same as before and the new
    memo is not among them. *)
Theorem created_memo_on_screen (toLowerCase : list N → list N) (w : World)
    (s : AppState) (title content : list N) (r : Memo) :
  insert_row w title content = Success r →
  let s' := final_state (handleCreateMemo title content w s) in
  let view := filteredMemos toLowerCase (memos s) (search s) in
  let view' := filteredMemos toLowerCase (memos s') (search s') in
  (blank (search s) ∨ lowered_hit toLowerCase (search s) r → view' = r :: view)
  ∧ (¬ blank (search s) → ¬ lowered_hit toLowerCase (search s) r → view' = view).
Proof.
  intros Hi. rewrite handleCreateMemo_run, Hi. cbn.
  unfold filteredMemos.
  destruct (negb (truthy (trim (search s)))) eqn:E.
  - apply trim_falsy in E. split; [reflexivity | contradiction].
  - assert (Hnb : ¬ blank (search s))
      by (intros Hb; apply trim_falsy in Hb; congruence).
    simpl. destruct (search_hit toLowerCase (toLowerCase (search s)) r) eqn:Hr.
    + apply search_hit_spec in Hr. split; [reflexivity | contradiction].
    + split; [| reflexivity].
      intros [Hb | Hm]; [contradiction |].
      apply search_hit_spec in Hm. congruence.
Qed.

Lemma not_blank_recipe : ¬ blank (js "recipe").
Proof. intros H. apply blank_forallb in H. discriminate H. Qed.

Lemma created_memo_on_screen_witness :
  filteredMemos toLowerCase_latin_greek
    (memos (final_state (handleCreateMemo (js "Groceries") (js "Milk, eggs") world_up
                           state_search)))
    (js "recipe")
  = [memoB].
Proof.
  refine (proj2 (created_memo_on_screen toLowerCase_latin_greek world_up state_search
                   (js "Groceries") (js "Milk, eggs") memoC eq_refl)
            not_blank_recipe _).
  intros H. apply search_hit_spec in H. discriminate H.
Defined.

(** *** A submission that the store accepts *)

(** X16. A submission with a valid title that the store accepts. For a new
    memo: the row received heads the list. For an edit of [m]: the list
    keeps its length and the row received takes every position whose
    identifier is that of [m]. In both cases the modal is closed, nothing is
    logged, no dialog is shown, and [editingMemo] keeps its value, which
    after an edit is still the memo as it was before the update. *)
Theorem accepted_submission (w : World) (s : AppState) (form : ModalState)
    (r : Memo) :
  ¬ blank (form_title form) →
  match editingMemo s with
  | Some m =>
      update_row w (Memo.id m) (trim (form_title form))
        (trim (form_content form)) (now_iso w) = Success r
  | None =>
      insert_row w (trim (form_title form)) (trim (form_content form)) = Success r
  end →
  let s' := final_state (submit form w s) in
  let t := trace (submit form w s) in
  match editingMemo s with
  | Some m =>
      length (memos s') = length (memos s)
      ∧ ∀ i x, memos s !! i = Some x →
               memos s' !! i = Some (if strict_eq (Memo.id x) (Memo.id m) then r else x)
  | None => memos s' = r :: memos s
  end
  ∧ isModalOpen s' = false
  ∧ editingMemo s' = editingMemo s
  ∧ logs_of t = [] ∧ dialogs_of t = [] ∧ length (requests_of t) = 1.
Proof.
  intros Hnb Hok. rewrite (submit_valid _ _ _ Hnb), onSubmit_run. cbn.
  destruct (editingMemo s) as [m |] eqn:Ee.
  - rewrite handleUpdateMemo_run, Hok. cbn.
    repeat split; auto using length_map.
    intros i x Hi. now rewrite map_lookup, Hi.
  - rewrite handleCreateMemo_run, Hok. cbn. repeat split; auto.
Qed.

Lemma accepted_submission_witness :
  memos (final_state (submit (mkModal (js " Groceries") (js "Milk, eggs")) world_up state_new))
  = [memoC; memoA; memoB].
Proof.
  refine (proj1 (accepted_submission world_up state_new
                   (mkModal (js " Groceries") (js "Milk, eggs")) memoC _ eq_refl)).
  intros H. apply blank_forallb in H. discriminate H.
Defined.

(** *** The grid after an update *)

Lemma filter_update_miss (hit : Memo → bool) id r l :
  hit r = false →
  List.filter hit (List.map (λ m, if strict_eq (Memo.id m) id then r else m) l)
  = List.filter (λ m, negb (strict_eq (Memo.id m) id)) (List.filter hit l).
Proof.
  intros Hr. induction l as [| m l IH]; simpl; [reflexivity |].
  destruct (strict_eq (Memo.id m) id) eqn:E.
  - rewrite Hr, IH. destruct (hit m); simpl; [now rewrite E | reflexivity].
  - rewrite IH. destruct (hit m); simpl; [now rewrite E | reflexivity].
Qed.

(** X19. An updated memo and the search in progress: after a successful
    update of [id], when the search text is not blank and neither the title
    nor the content of the row received, in lower case, contains the search
    text in lower case, the filtered list is the one of before without the
    entries of identifier [id]; when the search text is blank or one of the
    two contains it, and the list had an entry of identifier [id], the row
    received is in the filtered list. *)
Theorem updated_memo_on_screen (toLowerCase : list N → list N) (w : World)
    (s : AppState) (id : Ident) (title content : list N) (r : Memo) :
  update_row w id title content (now_iso w) = Success r →
  let s' := final_state (handleUpdateMemo id title content w s) in
  let view := filteredMemos toLowerCase (memos s) (search s) in
  let view' := filteredMemos toLowerCase (memos s') (search s') in
  (¬ blank (search s) → ¬ lowered_hit toLowerCase (search s) r →
   selected (λ m, Memo.id m ≠ id) view view')
  ∧ (blank (search s) ∨ lowered_hit toLowerCase (search s) r →
     (∃ m, m ∈ memos s ∧ Memo.id m = id) → r ∈ view').
Proof.
  intros Hu. rewrite handleUpdateMemo_run, Hu. cbn. split.
  - intros Hnb Hr. rewrite !(filteredMemos_search _ _ _ Hnb).
    rewrite filter_update_miss.
    + apply filter_selected. intros m.
      rewrite negb_true_iff. apply strict_eq_false.
    + destruct (search_hit toLowerCase (toLowerCase (search s)) r) eqn:E;
        [| reflexivity].
      apply search_hit_spec in E. contradiction.
  - intros Hr (m & Hm & Hid). apply filteredMemos_elem. split; [| exact Hr].
    apply list_elem_of_In, in_map_iff. exists m.
    apply strict_eq_spec in Hid. rewrite Hid.
    split; [reflexivity | now apply list_elem_of_In].
Qed.

Lemma updated_memo_on_screen_witness :
  selected (λ m, Memo.id m ≠ IdNum 2)
    (filteredMemos toLowerCase_latin_greek [memoA; memoB] (js "recipe"))
    (filteredMemos toLowerCase_latin_greek
       (memos (final_state (handleUpdateMemo (IdNum 2) (js "Pancakes") (js "") world_up
                              state_search)))
       (js "recipe")).
Proof.
  refine (proj1 (updated_memo_on_screen toLowerCase_latin_greek world_up state_search
                   (IdNum 2) (js "Pancakes") (js "") _ eq_refl) not_blank_recipe _).
  intros H. apply search_hit_spec in H. discriminate H.
Defined.
